(** * Stress and strain around an elliptical inclusion (main.py)

    A shallow embedding of [main.py]: the closed-form stress and strain
    evaluators, the polar grid built with [linspace] and [meshgrid], the
    von Mises equivalent stress and the yield mask.

    Numbers.  The script computes with binary64 values; here every number is a
    real ([R]) and every operation is the exact one.  Rounding, infinities and
    NaN are outside the model, and so is the behaviour at a zero denominator:
    the statements below carry the hypotheses ([r <> 0], [G1 <> 0], ...) under
    which the script divides by a non-zero number.

    Arrays.  A one-dimensional array is a [list R], a two-dimensional one a
    list of rows.  A NumPy expression over arrays of one shape is the
    element-wise application of the scalar expression. *)

From Stdlib Require Import Reals Lra Lia List Bool Arith.
Import ListNotations.

Local Open Scope R_scope.

(** ** Parameters of the problem (main.py, lines 11-20) *)

Module Params.

Definition a : R := 2 / 100.            (* a = 0.02 *)
Definition b : R := 15 / 1000.          (* b = 0.015 *)
Definition P1 : R := 150.
Definition P2 : R := 150.
Definition P0 : R := 50.
Definition G : R := 810.
Definition G1 : R := 1216.
Definition E : R := 200000.
Definition nu : R := 3 / 10.            (* nu = 0.3 *)
Definition yield_stress : R := 250.

End Params.

(** ** Scalar evaluators (main.py, lines 32-53) *)

Definition stress_xx (r theta P1 P0 a G G1 : R) : R :=
  P1 * (1 + (a ^ 2 / r ^ 2) * cos (2 * theta))
  + P0 * (a ^ 2 / r ^ 2) * cos (2 * theta) * (G / G1).

Definition stress_yy (r theta P2 P0 a G G1 : R) : R :=
  P2 * (1 - (a ^ 2 / r ^ 2) * cos (2 * theta))
  + P0 * (a ^ 2 / r ^ 2) * cos (2 * theta) * (G / G1).

Definition stress_xy (r theta P0 a G G1 : R) : R :=
  - P0 * (a ^ 2 / r ^ 2) * sin (2 * theta) * (G / G1).

Definition strain_xx (sigma_xx sigma_yy E nu : R) : R :=
  (1 / E) * (sigma_xx - nu * sigma_yy).

Definition strain_yy (sigma_xx sigma_yy E nu : R) : R :=
  (1 / E) * (sigma_yy - nu * sigma_xx).

Definition strain_xy (sigma_xy G : R) : R :=
  (1 / G) * sigma_xy.

(** The expression under [np.sqrt] on line 66, and the equivalent stress. *)

Definition mises_radicand (sigma_xx sigma_yy sigma_xy : R) : R :=
  sigma_xx ^ 2 + sigma_yy ^ 2 - sigma_xx * sigma_yy + 3 * sigma_xy ^ 2.

Definition mises (sigma_xx sigma_yy sigma_xy : R) : R :=
  sqrt (mises_radicand sigma_xx sigma_yy sigma_xy).

(** The comparison [x > y] as the boolean NumPy stores in the mask. *)

Definition Rgtb (x y : R) : bool :=
  if Rlt_dec y x then true else false.

(** ** Arrays

    [linspace start stop num] follows [numpy.linspace] with its default
    [endpoint=True]: the step is [(stop - start) / (num - 1)], sample [i] is
    [i * step + start], and the last sample is then overwritten with [stop]
    when [num > 1]. *)

Definition linspace (start stop : R) (num : nat) : list R :=
  let step := (stop - start) / INR (num - 1) in
  map (fun i : nat =>
         if ((1 <? num)%nat && (i =? num - 1)%nat)%bool then stop
         else INR i * step + start)
      (seq 0 num).

(** [meshgrid x y] follows [numpy.meshgrid] with its default [indexing='xy']:
    both results have [length y] rows and [length x] columns; the first
    repeats [x] in every row, the second repeats [y] down every column. *)

Definition meshgrid (x y : list R) : list (list R) * list (list R) :=
  (map (fun _ : R => x) y,
   map (fun yi : R => map (fun _ : R => yi) x) y).

Fixpoint zip_with {A B C : Type} (f : A -> B -> C)
         (l1 : list A) (l2 : list B) : list C :=
  match l1, l2 with
  | x :: l1', y :: l2' => f x y :: zip_with f l1' l2'
  | _, _ => []
  end.

(** Element-wise application over two-dimensional arrays. *)

Definition ew1 {A B : Type} (f : A -> B) (X : list (list A)) : list (list B) :=
  map (map f) X.

Definition ew2 {A B C : Type} (f : A -> B -> C)
           (X : list (list A)) (Y : list (list B)) : list (list C) :=
  zip_with (zip_with f) X Y.

(** [get m i j d] is [m[i, j]], with [d] outside the array. *)

Definition get {A : Type} (m : list (list A)) (i j : nat) (d : A) : A :=
  nth j (nth i m []) d.

(** [shape m rows cols]: [m] has [rows] rows, each of [cols] entries. *)

Definition shape {A : Type} (m : list (list A)) (rows cols : nat) : Prop :=
  length m = rows /\ Forall (fun row => length row = cols) m.

(** The array operators used on line 66. *)

Definition arr_add : list (list R) -> list (list R) -> list (list R) := ew2 Rplus.
Definition arr_sub : list (list R) -> list (list R) -> list (list R) := ew2 Rminus.
Definition arr_mul : list (list R) -> list (list R) -> list (list R) := ew2 Rmult.
Definition arr_pow (X : list (list R)) (n : nat) : list (list R) :=
  ew1 (fun x => x ^ n) X.
Definition arr_scale (c : R) (X : list (list R)) : list (list R) :=
  ew1 (fun x => c * x) X.
Definition arr_sqrt : list (list R) -> list (list R) := ew1 sqrt.
Definition arr_gt (X : list (list R)) (c : R) : list (list bool) :=
  ew1 (fun x => Rgtb x c) X.

(** ** The script (main.py, lines 23-69) *)

Module Script.
Import Params.

Definition theta : list R := linspace 0 (2 * PI) 400.
Definition r : list R := linspace a b 400.

(** [R, Theta = np.meshgrid(r, theta)]; the array [R] of the script is
    [Rgrid] here, [R] being the type of the reals. *)
Definition Rgrid : list (list R) := fst (meshgrid r theta).
Definition Theta : list (list R) := snd (meshgrid r theta).

Definition X : list (list R) := ew2 (fun r t => r * cos t) Rgrid Theta.
Definition Y : list (list R) := ew2 (fun r t => r * sin t) Rgrid Theta.

Definition sigma_xx : list (list R) :=
  ew2 (fun r t => stress_xx r t P1 P0 a G G1) Rgrid Theta.
Definition sigma_yy : list (list R) :=
  ew2 (fun r t => stress_yy r t P2 P0 a G G1) Rgrid Theta.
Definition sigma_xy : list (list R) :=
  ew2 (fun r t => stress_xy r t P0 a G G1) Rgrid Theta.

Definition e_xx : list (list R) :=
  ew2 (fun sx sy => strain_xx sx sy E nu) sigma_xx sigma_yy.
Definition e_yy : list (list R) :=
  ew2 (fun sx sy => strain_yy sx sy E nu) sigma_xx sigma_yy.
Definition e_xy : list (list R) :=
  ew1 (fun s => strain_xy s G) sigma_xy.

Definition sigma_e : list (list R) :=
  arr_sqrt
    (arr_add
       (arr_sub (arr_add (arr_pow sigma_xx 2) (arr_pow sigma_yy 2))
                (arr_mul sigma_xx sigma_yy))
       (arr_scale 3 (arr_pow sigma_xy 2))).

Definition plastic_boundary : list (list bool) := arr_gt sigma_e yield_stress.

End Script.

(** The strain [e_xx] at one grid point as a function of the three loads
    (lines 56, 57 and 61 composed). *)

Definition exx_of_loads (r theta a G G1 E nu : R) (P1 P2 P0 : R) : R :=
  strain_xx (stress_xx r theta P1 P0 a G G1)
            (stress_yy r theta P2 P0 a G G1) E nu.

(** The equivalent stress at one grid point as a function of the
    coordinates and the loads (lines 56-58 and 66 composed). *)

Definition mises_at (r theta P1 P2 P0 a G G1 : R) : R :=
  mises (stress_xx r theta P1 P0 a G G1)
        (stress_yy r theta P2 P0 a G G1)
        (stress_xy r theta P0 a G G1).

(** [np.max] over a two-dimensional array: the largest entry of the
    flattened array; an array without entries has no maximum (NumPy raises
    [ValueError]), which is [None] here. *)

Definition arr_max (X : list (list R)) : option R :=
  match concat X with
  | [] => None
  | x :: l => Some (fold_left Rmax l x)
  end.

(** The levels of the contour lines on line 80:
    [np.linspace(0, np.max(sigma_e), 10)]. *)

Definition contour_levels : option (list R) :=
  option_map (fun m => linspace 0 m 10) (arr_max Script.sigma_e).

(** Agreement of two values when both are rounded to two decimals. *)

Definition approx2 (x y : R) : Prop := Rabs (x - y) <= 5 / 1000.

(** * Properties *)

(** ** The modulation factor *)

Lemma modulation_sq (a r : R) : r <> 0 -> a ^ 2 / r ^ 2 = (a / r) ^ 2.
Proof. intros Hr. field. exact Hr. Qed.

(** C1: for r <> 0 the three stress evaluators return the closed forms
    P1 (1 + (a/r)^2 cos(2 theta)) + P0 (a/r)^2 cos(2 theta) (G/G1),
    P2 (1 - (a/r)^2 cos(2 theta)) + P0 (a/r)^2 cos(2 theta) (G/G1) and
    - P0 (a/r)^2 sin(2 theta) (G/G1). *)
Theorem C1_stress_closed_forms (r theta P1 P2 P0 a G G1 : R) :
  r <> 0 ->
  stress_xx r theta P1 P0 a G G1
    = P1 * (1 + (a / r) ^ 2 * cos (2 * theta))
      + P0 * (a / r) ^ 2 * cos (2 * theta) * (G / G1)
  /\ stress_yy r theta P2 P0 a G G1
    = P2 * (1 - (a / r) ^ 2 * cos (2 * theta))
      + P0 * (a / r) ^ 2 * cos (2 * theta) * (G / G1)
  /\ stress_xy r theta P0 a G G1
    = - P0 * (a / r) ^ 2 * sin (2 * theta) * (G / G1).
Proof.
  intros Hr. unfold stress_xx, stress_yy, stress_xy.
  rewrite (modulation_sq a r Hr). repeat split; reflexivity.
Qed.

Lemma C1_stress_closed_forms_witness :
  2 <> 0 /\
  stress_xy 2 1 50 1 810 1216
    = - 50 * (1 / 2) ^ 2 * sin (2 * 1) * (810 / 1216).
Proof.
  assert (H : (2:R) <> 0) by lra.
  split; [exact H | exact (proj2 (proj2 (C1_stress_closed_forms 2 1 150 150 50 1 810 1216 H)))].
Defined.

(** ** Hooke's law *)

(** C4: with E <> 0 and G <> 0 the strain evaluators return
    (sxx - nu syy)/E, (syy - nu sxx)/E and sxy/G. *)
Theorem C4_strain_hooke (sxx syy sxy E nu G : R) :
  E <> 0 -> G <> 0 ->
  strain_xx sxx syy E nu = (sxx - nu * syy) / E
  /\ strain_yy sxx syy E nu = (syy - nu * sxx) / E
  /\ strain_xy sxy G = sxy / G.
Proof.
  intros HE HG. unfold strain_xx, strain_yy, strain_xy.
  repeat split; field; assumption.
Qed.

Lemma C4_strain_hooke_witness :
  200000 <> 0 /\ 810 <> 0 /\
  strain_xx 300 150 200000 (3 / 10) = (300 - 3 / 10 * 150) / 200000.
Proof.
  assert (HE : (200000:R) <> 0) by lra.
  assert (HG : (810:R) <> 0) by lra.
  split; [exact HE | split; [exact HG |]].
  exact (proj1 (C4_strain_hooke 300 150 0 200000 (3 / 10) 810 HE HG)).
Defined.

(** ** The fixture value of stress_xx *)

Lemma stress_xx_at_boundary_theta0 (a P1 P0 G G1 : R) :
  a <> 0 -> stress_xx a 0 P1 P0 a G G1 = P1 * (1 + 1) + P0 * 1 * (G / G1).
Proof.
  intros Ha. unfold stress_xx.
  rewrite Rmult_0_r, cos_0.
  replace (a ^ 2 / a ^ 2) with 1 by (field; exact Ha).
  ring.
Qed.

Lemma a_nonzero : Params.a <> 0.
Proof. unfold Params.a. lra. Qed.

(** C5, as the code has it: at theta = 0 and r = a the value of stress_xx is
    150 (1+1) + 50 (810/1216), which is 333.31 to two decimals. *)
Theorem C5_stress_xx_fixture :
  stress_xx Params.a 0 Params.P1 Params.P0 Params.a Params.G Params.G1
    = 150 * (1 + 1) + 50 * 1 * (810 / 1216)
  /\ approx2
       (stress_xx Params.a 0 Params.P1 Params.P0 Params.a Params.G Params.G1)
       333.31.
Proof.
  rewrite (stress_xx_at_boundary_theta0 _ _ _ _ _ a_nonzero).
  unfold Params.P1, Params.P0, Params.G, Params.G1, approx2.
  split; [reflexivity | apply Rabs_le; lra].
Qed.

(** C5, as stated: the value is not 333.22 to two decimals; it exceeds
    333.22 by more than 0.08. *)
Lemma C5_stress_xx_not_333_22 :
  ~ approx2
      (stress_xx Params.a 0 Params.P1 Params.P0 Params.a Params.G Params.G1)
      333.22.
Proof.
  rewrite (stress_xx_at_boundary_theta0 _ _ _ _ _ a_nonzero).
  unfold Params.P1, Params.P0, Params.G, Params.G1, approx2.
  unfold Rabs. destruct (Rcase_abs _); lra.
Qed.

(** ** The equivalent stress *)

Lemma mises_radicand_squares (x y z : R) :
  mises_radicand x y z = (x - y / 2) ^ 2 + 3 / 4 * y ^ 2 + 3 * z ^ 2.
Proof. unfold mises_radicand. field. Qed.

Lemma mises_radicand_nonneg (x y z : R) : 0 <= mises_radicand x y z.
Proof.
  rewrite mises_radicand_squares.
  pose proof (pow2_ge_0 (x - y / 2)).
  pose proof (pow2_ge_0 y).
  pose proof (pow2_ge_0 z).
  lra.
Qed.

(** C7: for all real stresses the radicand sxx^2 + syy^2 - sxx syy + 3 sxy^2
    is non-negative, so the equivalent stress is a non-negative real whose
    square is the radicand. *)
Theorem C7_radicand_nonneg (sxx syy sxy : R) :
  0 <= mises_radicand sxx syy sxy
  /\ 0 <= mises sxx syy sxy
  /\ mises sxx syy sxy * mises sxx syy sxy = mises_radicand sxx syy sxy.
Proof.
  pose proof (mises_radicand_nonneg sxx syy sxy) as Hrad.
  unfold mises. repeat split.
  - exact Hrad.
  - apply sqrt_pos.
  - apply sqrt_sqrt. exact Hrad.
Qed.

(** ** Symmetries in theta *)

Lemma cos_double_neg (t : R) : cos (2 * - t) = cos (2 * t).
Proof. replace (2 * - t) with (- (2 * t)) by ring. apply cos_neg. Qed.

Lemma sin_double_neg (t : R) : sin (2 * - t) = - sin (2 * t).
Proof. replace (2 * - t) with (- (2 * t)) by ring. apply sin_neg. Qed.

Lemma sin_double_shift (t : R) : sin (2 * (t + PI)) = sin (2 * t).
Proof.
  replace (2 * (t + PI)) with (2 * t + PI + PI) by ring.
  rewrite !neg_sin. ring.
Qed.

(** A shift of theta by pi leaves stress_xy unchanged. *)
Lemma stress_xy_shift_PI (r theta P0 a G G1 : R) :
  stress_xy r (theta + PI) P0 a G G1 = stress_xy r theta P0 a G G1.
Proof. unfold stress_xy. rewrite sin_double_shift. reflexivity. Qed.

Lemma stress_xy_at_quarter :
  stress_xy Params.a (PI / 4) Params.P0 Params.a Params.G Params.G1
    = - (50 * (810 / 1216)).
Proof.
  unfold stress_xy.
  replace (2 * (PI / 4)) with (PI / 2) by field.
  rewrite sin_PI2.
  replace (Params.a ^ 2 / Params.a ^ 2) with 1 by (field; exact a_nonzero).
  unfold Params.P0, Params.G, Params.G1. ring.
Qed.

(** C8: for r <> 0, stress_xy is odd in theta and stress_xx, stress_yy are
    even in theta; and stress_xy(r, theta) = - stress_xy(r, theta + pi) does
    not hold for all r <> 0 and theta (with the loads of the script it fails
    at r = a, theta = pi/4). *)
Theorem C8_theta_symmetry :
  (forall r theta P1 P2 P0 a G G1 : R,
      r <> 0 ->
      stress_xy r theta P0 a G G1 = - stress_xy r (- theta) P0 a G G1
      /\ stress_xx r theta P1 P0 a G G1 = stress_xx r (- theta) P1 P0 a G G1
      /\ stress_yy r theta P2 P0 a G G1 = stress_yy r (- theta) P2 P0 a G G1)
  /\ ~ (forall r theta : R,
          r <> 0 ->
          stress_xy r theta Params.P0 Params.a Params.G Params.G1
            = - stress_xy r (theta + PI) Params.P0 Params.a Params.G Params.G1).
Proof.
  split.
  - intros r theta P1 P2 P0 a G G1 _.
    unfold stress_xy, stress_xx, stress_yy.
    rewrite sin_double_neg, cos_double_neg.
    repeat split; ring.
  - intros Hall.
    specialize (Hall Params.a (PI / 4) a_nonzero).
    rewrite stress_xy_shift_PI, stress_xy_at_quarter in Hall.
    lra.
Qed.

Lemma C8_theta_symmetry_witness :
  2 <> 0 /\
  stress_xy 2 1 50 1 810 1216 = - stress_xy 2 (- 1) 50 1 810 1216.
Proof.
  assert (H : (2:R) <> 0) by lra.
  split; [exact H |].
  exact (proj1 (proj1 C8_theta_symmetry 2 1 150 150 50 1 810 1216 H)).
Defined.

(** ** Linearity in the loads *)

(** C9: for fixed r <> 0 and theta, e_xx is linear in (P1, P2, P0): scaling
    the three loads by k scales e_xx by k, and e_xx of a sum of load vectors
    is the sum of the e_xx values. *)
Theorem C9_exx_linear (r theta a G G1 E nu : R) :
  r <> 0 ->
  (forall k P1 P2 P0 : R,
      exx_of_loads r theta a G G1 E nu (k * P1) (k * P2) (k * P0)
        = k * exx_of_loads r theta a G G1 E nu P1 P2 P0)
  /\ (forall P1 P2 P0 Q1 Q2 Q0 : R,
         exx_of_loads r theta a G G1 E nu (P1 + Q1) (P2 + Q2) (P0 + Q0)
           = exx_of_loads r theta a G G1 E nu P1 P2 P0
             + exx_of_loads r theta a G G1 E nu Q1 Q2 Q0).
Proof.
  intros _. unfold exx_of_loads, strain_xx, stress_xx, stress_yy.
  split; intros; ring.
Qed.

Lemma C9_exx_linear_witness :
  2 <> 0 /\
  exx_of_loads 2 1 1 810 1216 200000 (3 / 10) (3 * 150) (3 * 150) (3 * 50)
    = 3 * exx_of_loads 2 1 1 810 1216 200000 (3 / 10) 150 150 50.
Proof.
  assert (H : (2:R) <> 0) by lra.
  split; [exact H |].
  exact (proj1 (C9_exx_linear 2 1 1 810 1216 200000 (3 / 10) H) 3 150 150 50).
Defined.

(** ** The shear strain and the plate modulus *)

(** C10: for r, G, G1 <> 0 the composed shear strain is
    - P0 (a^2/r^2) sin(2 theta) / G1; G cancels, so any other non-zero plate
    modulus gives the same shear strain. *)
Theorem C10_exy_independent_of_G (r theta P0 a G G1 : R) :
  r <> 0 -> G <> 0 -> G1 <> 0 ->
  strain_xy (stress_xy r theta P0 a G G1) G
    = - P0 * (a ^ 2 / r ^ 2) * sin (2 * theta) / G1
  /\ (forall G' : R,
         G' <> 0 ->
         strain_xy (stress_xy r theta P0 a G' G1) G'
           = strain_xy (stress_xy r theta P0 a G G1) G).
Proof.
  intros Hr HG HG1. unfold strain_xy, stress_xy.
  split; [| intros G' HG']; field; auto.
Qed.

Lemma C10_exy_independent_of_G_witness :
  2 <> 0 /\ 810 <> 0 /\ 1216 <> 0 /\
  strain_xy (stress_xy 2 1 50 1 810 1216) 810
    = - 50 * (1 ^ 2 / 2 ^ 2) * sin (2 * 1) / 1216.
Proof.
  assert (Hr : (2:R) <> 0) by lra.
  assert (HG : (810:R) <> 0) by lra.
  assert (HG1 : (1216:R) <> 0) by lra.
  repeat (split; [assumption |]).
  exact (proj1 (C10_exy_independent_of_G 2 1 50 1 810 1216 Hr HG HG1)).
Defined.

(** ** Lists and element-wise application *)

Section ListFacts.
Context {A B C : Type}.

Lemma nth_map_lt (f : A -> B) (l : list A) (i : nat) (d : B) (d' : A) :
  (i < length l)%nat -> nth i (map f l) d = f (nth i l d').
Proof.
  intros Hi. rewrite (nth_indep _ d (f d')).
  - apply map_nth.
  - rewrite length_map. exact Hi.
Qed.

Lemma length_zip_with (f : A -> B -> C) (l1 : list A) (l2 : list B) :
  length (zip_with f l1 l2) = Nat.min (length l1) (length l2).
Proof.
  revert l2. induction l1 as [|x l1 IH]; intros [|y l2]; simpl; auto.
Qed.

Lemma nth_zip_with (f : A -> B -> C) (l1 : list A) (l2 : list B)
      (i : nat) (d : C) (d1 : A) (d2 : B) :
  (i < length l1)%nat -> (i < length l2)%nat ->
  nth i (zip_with f l1 l2) d = f (nth i l1 d1) (nth i l2 d2).
Proof.
  revert l2 i.
  induction l1 as [|x l1 IH]; intros [|y l2] i H1 H2; simpl in *; try lia.
  destruct i as [|i]; [reflexivity | apply IH; lia].
Qed.
End ListFacts.

Lemma shape_row {A : Type} (m : list (list A)) (rows cols i : nat) :
  shape m rows cols -> (i < rows)%nat -> length (nth i m []) = cols.
Proof.
  intros [Hlen Hall] Hi. rewrite Forall_forall in Hall.
  apply Hall, nth_In. lia.
Qed.

Lemma shape_ew1 {A B : Type} (f : A -> B) (m : list (list A)) (rows cols : nat) :
  shape m rows cols -> shape (ew1 f m) rows cols.
Proof.
  intros [Hlen Hall]. unfold ew1. split.
  - rewrite length_map. exact Hlen.
  - rewrite Forall_map. eapply Forall_impl; [| exact Hall].
    intros row Hrow. simpl. rewrite length_map. exact Hrow.
Qed.

Lemma get_ew1 {A B : Type} (f : A -> B) (m : list (list A))
      (rows cols i j : nat) (d : B) (d' : A) :
  shape m rows cols -> (i < rows)%nat -> (j < cols)%nat ->
  get (ew1 f m) i j d = f (get m i j d').
Proof.
  intros Hm Hi Hj. unfold get, ew1.
  rewrite (nth_map_lt (map f) m i [] []) by (destruct Hm; lia).
  apply nth_map_lt. rewrite (shape_row m rows cols i Hm Hi). exact Hj.
Qed.

Lemma shape_ew2 {A B C : Type} (f : A -> B -> C)
      (X : list (list A)) (Y : list (list B)) (rows cols : nat) :
  shape X rows cols -> shape Y rows cols -> shape (ew2 f X Y) rows cols.
Proof.
  intros [HlX HaX] [HlY HaY]. unfold ew2. split.
  - rewrite length_zip_with. lia.
  - clear HlX HlY. revert Y HaY.
    induction HaX as [|x X Hx _ IH]; intros [|y Y] HaY; simpl; auto.
    apply Forall_cons_iff in HaY as [Hy HaY'].
    constructor; [| apply IH; exact HaY'].
    rewrite length_zip_with, Hx, Hy. apply Nat.min_id.
Qed.

Lemma get_ew2 {A B C : Type} (f : A -> B -> C)
      (X : list (list A)) (Y : list (list B))
      (rows cols i j : nat) (d : C) (dx : A) (dy : B) :
  shape X rows cols -> shape Y rows cols ->
  (i < rows)%nat -> (j < cols)%nat ->
  get (ew2 f X Y) i j d = f (get X i j dx) (get Y i j dy).
Proof.
  intros HX HY Hi Hj. unfold get, ew2.
  rewrite (nth_zip_with (zip_with f) X Y i [] [] [])
    by (destruct HX, HY; lia).
  apply nth_zip_with.
  - rewrite (shape_row X rows cols i HX Hi). exact Hj.
  - rewrite (shape_row Y rows cols i HY Hi). exact Hj.
Qed.

(** ** linspace and meshgrid *)

Lemma length_linspace (start stop : R) (num : nat) :
  length (linspace start stop num) = num.
Proof. unfold linspace. rewrite length_map. apply length_seq. Qed.

Lemma nth_linspace (start stop : R) (num i : nat) (d : R) :
  (i < num)%nat ->
  nth i (linspace start stop num) d
    = if ((1 <? num)%nat && (i =? num - 1)%nat)%bool then stop
      else INR i * ((stop - start) / INR (num - 1)) + start.
Proof.
  intros Hi. unfold linspace.
  rewrite (nth_map_lt _ _ i d 0%nat) by (rewrite length_seq; exact Hi).
  rewrite seq_nth by exact Hi. reflexivity.
Qed.

(** Sample [i] of at least two samples, the overwritten last one included,
    lies at the fraction [i / (num - 1)] of the way from start to stop. *)
Lemma nth_linspace_fraction (start stop : R) (num i : nat) (d : R) :
  (1 < num)%nat -> (i < num)%nat ->
  nth i (linspace start stop num) d
    = start + INR i / INR (num - 1) * (stop - start).
Proof.
  intros Hnum Hi. rewrite nth_linspace by exact Hi.
  assert (Hden : INR (num - 1) <> 0) by (apply not_0_INR; lia).
  destruct (Nat.ltb_spec 1 num) as [_|]; [| lia].
  destruct (Nat.eqb_spec i (num - 1)) as [->|_]; simpl; field; exact Hden.
Qed.

Lemma linspace_first (start stop : R) (num : nat) (d : R) :
  (1 < num)%nat -> nth 0 (linspace start stop num) d = start.
Proof.
  intros Hnum. rewrite nth_linspace_fraction by lia.
  simpl. unfold Rdiv. ring.
Qed.

Lemma linspace_last (start stop : R) (num : nat) (d : R) :
  (1 < num)%nat -> nth (num - 1) (linspace start stop num) d = stop.
Proof.
  intros Hnum. rewrite nth_linspace by lia.
  destruct (Nat.ltb_spec 1 num) as [_|]; [| lia].
  rewrite Nat.eqb_refl. reflexivity.
Qed.

Lemma fraction_unit (num i : nat) :
  (1 < num)%nat -> (i < num)%nat -> 0 <= INR i / INR (num - 1) <= 1.
Proof.
  intros Hnum Hi.
  assert (Hden : 0 < INR (num - 1)) by (apply lt_0_INR; lia).
  assert (Hle : INR i <= INR (num - 1)) by (apply le_INR; lia).
  pose proof (pos_INR i) as Hpos.
  split.
  - apply Rmult_le_pos; [exact Hpos | left; apply Rinv_0_lt_compat; exact Hden].
  - apply (Rmult_le_reg_r (INR (num - 1))); [exact Hden |].
    unfold Rdiv. rewrite Rmult_assoc, Rinv_l by lra. lra.
Qed.

(** An ascending range keeps every sample between its end points ... *)
Lemma linspace_between (start stop : R) (num i : nat) (d : R) :
  start <= stop -> (1 < num)%nat -> (i < num)%nat ->
  start <= nth i (linspace start stop num) d <= stop.
Proof.
  intros Hord Hnum Hi. rewrite nth_linspace_fraction by assumption.
  pose proof (fraction_unit num i Hnum Hi) as [H0 H1]. nra.
Qed.

(** ... and so does a descending one. *)
Lemma linspace_between_desc (start stop : R) (num i : nat) (d : R) :
  stop <= start -> (1 < num)%nat -> (i < num)%nat ->
  stop <= nth i (linspace start stop num) d <= start.
Proof.
  intros Hord Hnum Hi. rewrite nth_linspace_fraction by assumption.
  pose proof (fraction_unit num i Hnum Hi) as [H0 H1]. nra.
Qed.

Lemma shape_meshgrid (x y : list R) :
  shape (fst (meshgrid x y)) (length y) (length x)
  /\ shape (snd (meshgrid x y)) (length y) (length x).
Proof.
  unfold meshgrid, shape. simpl. rewrite !length_map.
  repeat split; rewrite Forall_map; apply Forall_forall; intros yi _;
    [reflexivity | apply length_map].
Qed.

Lemma get_meshgrid (x y : list R) (i j : nat) (d : R) :
  (i < length y)%nat -> (j < length x)%nat ->
  get (fst (meshgrid x y)) i j d = nth j x d
  /\ get (snd (meshgrid x y)) i j d = nth i y d.
Proof.
  intros Hi Hj. unfold meshgrid, get. simpl. split.
  - rewrite (nth_map_lt (fun _ => x) y i [] d) by exact Hi. reflexivity.
  - rewrite (nth_map_lt (fun yi => map (fun _ => yi) x) y i [] d) by exact Hi.
    rewrite (nth_map_lt (fun _ => nth i y d) x j d d) by exact Hj. reflexivity.
Qed.

(** ** The grid of the script *)

Lemma length_theta : length Script.theta = 400%nat.
Proof. apply length_linspace. Qed.

Lemma length_r : length Script.r = 400%nat.
Proof. apply length_linspace. Qed.

Lemma shape_Rgrid : shape Script.Rgrid 400 400.
Proof.
  pose proof (proj1 (shape_meshgrid Script.r Script.theta)) as H.
  rewrite length_theta, length_r in H. exact H.
Qed.

Lemma shape_Theta : shape Script.Theta 400 400.
Proof.
  pose proof (proj2 (shape_meshgrid Script.r Script.theta)) as H.
  rewrite length_theta, length_r in H. exact H.
Qed.

(** Grid point [(i, j)] pairs radial sample [j] with angular sample [i]. *)
Lemma grid_point (i j : nat) (d : R) :
  (i < 400)%nat -> (j < 400)%nat ->
  get Script.Rgrid i j d = nth j Script.r d
  /\ get Script.Theta i j d = nth i Script.theta d.
Proof.
  intros Hi Hj. apply get_meshgrid.
  - rewrite length_theta. exact Hi.
  - rewrite length_r. exact Hj.
Qed.

Lemma theta_range (i : nat) (d : R) :
  (i < 400)%nat -> 0 <= nth i Script.theta d <= 2 * PI.
Proof.
  intros Hi. apply linspace_between; [| lia | exact Hi].
  pose proof PI_RGT_0. lra.
Qed.

Lemma b_lt_a : Params.b < Params.a.
Proof. unfold Params.a, Params.b. lra. Qed.

(** The radial samples descend from [a] to [b]. *)
Lemma r_range (j : nat) (d : R) :
  (j < 400)%nat -> Params.b <= nth j Script.r d <= Params.a.
Proof.
  intros Hj. apply linspace_between_desc; [| lia | exact Hj].
  left. exact b_lt_a.
Qed.

Lemma r_first (d : R) : nth 0 Script.r d = Params.a.
Proof. apply linspace_first. lia. Qed.

Lemma r_last (d : R) : nth 399 Script.r d = Params.b.
Proof. apply (linspace_last Params.a Params.b 400 d). lia. Qed.

(** What the grid of the script satisfies: shape 400 x 400, one cell per
    pair of a radial and an angular sample, theta in [0, 2 pi] and r in
    [b, a]. *)
Lemma grid_as_built (i j : nat) :
  (i < 400)%nat -> (j < 400)%nat ->
  shape Script.Rgrid 400 400 /\ shape Script.Theta 400 400
  /\ get Script.Rgrid i j 0 = nth j Script.r 0
  /\ get Script.Theta i j 0 = nth i Script.theta 0
  /\ 0 <= get Script.Theta i j 0 <= 2 * PI
  /\ Params.b <= get Script.Rgrid i j 0 <= Params.a.
Proof.
  intros Hi Hj. destruct (grid_point i j 0 Hi Hj) as [HR HT].
  rewrite HR, HT.
  repeat split; try apply shape_Rgrid; try apply shape_Theta;
    try apply theta_range; try apply r_range; assumption.
Qed.

(** With the end points in the order [a <= b] the same construction keeps
    every radial sample in [a, b]. *)
Lemma radius_in_range_when_ordered (a b : R) (i j : nat) :
  a <= b -> (i < 400)%nat -> (j < 400)%nat ->
  a <= get (fst (meshgrid (linspace a b 400) Script.theta)) i j 0 <= b.
Proof.
  intros Hab Hi Hj.
  destruct (get_meshgrid (linspace a b 400) Script.theta i j 0) as [HR _].
  - rewrite length_theta. exact Hi.
  - rewrite length_linspace. exact Hj.
  - rewrite HR. apply linspace_between; [exact Hab | lia | exact Hj].
Qed.

(** C2, at the grid point (0, 399): the radial coordinate there is
    b = 0.015, below a = 0.02, so it is not in [a, b]. *)
Theorem C2_radius_outside_a_b :
  get Script.Rgrid 0 399 0 = Params.b
  /\ Params.b < Params.a
  /\ ~ (Params.a <= get Script.Rgrid 0 399 0 <= Params.b).
Proof.
  assert (Hget : get Script.Rgrid 0 399 0 = Params.b).
  { destruct (grid_point 0 399 0) as [HR _]; [lia | lia |].
    rewrite HR. apply r_last. }
  pose proof b_lt_a as Hlt.
  rewrite Hget. repeat split; [exact Hlt | lra].
Qed.

(** ** The modulation factor over the radial samples *)

(** For 0 < a <= r the factor is at most 1, its value at r = a. *)
Lemma modulation_le_1 (a r : R) : 0 < a -> a <= r -> (a / r) ^ 2 <= 1.
Proof.
  intros Ha Hr.
  assert (H0 : 0 <= a / r).
  { apply Rmult_le_pos; [lra | left; apply Rinv_0_lt_compat; lra]. }
  assert (H1 : a / r <= 1).
  { apply (Rmult_le_reg_r r); [lra |].
    unfold Rdiv. rewrite Rmult_assoc, Rinv_l by lra. lra. }
  nra.
Qed.

(** Over the samples of the script the factor is largest at r = b. *)
Lemma modulation_max_at_b (j : nat) :
  (j < 400)%nat ->
  (Params.a / nth j Script.r 0) ^ 2 <= (Params.a / Params.b) ^ 2.
Proof.
  intros Hj. destruct (r_range j 0 Hj) as [Hlo _].
  assert (Hb : 0 < Params.b) by (unfold Params.b; lra).
  assert (Ha : 0 < Params.a) by (unfold Params.a; lra).
  set (rj := nth j Script.r 0) in *.
  assert (Hinv : / rj <= / Params.b) by (apply Rinv_le_contravar; lra).
  assert (Hpos : 0 < / rj) by (apply Rinv_0_lt_compat; lra).
  assert (Hmul : Params.a * / rj <= Params.a * / Params.b)
    by (apply Rmult_le_compat_l; lra).
  assert (Hlow : 0 <= Params.a * / rj) by (apply Rmult_le_pos; lra).
  unfold Rdiv. apply pow_incr. split; assumption.
Qed.

(** C6, with a = 0.02 and b = 0.015: the factor is 1 at r = a and 16/9 at
    r = b, the last radial sample, so it is larger at r = b than at r = a. *)
Theorem C6_modulation_at_b :
  (Params.a / nth 0 Script.r 0) ^ 2 = 1
  /\ (Params.a / nth 399 Script.r 0) ^ 2 = 16 / 9
  /\ (Params.a / Params.a) ^ 2 < (Params.a / Params.b) ^ 2.
Proof.
  rewrite r_first, r_last. unfold Params.a, Params.b.
  repeat split; try field; lra.
Qed.

(** ** The fields over the grid *)

Create HintDb shapes.

Lemma shape_sigma_xx : shape Script.sigma_xx 400 400.
Proof. apply shape_ew2; [apply shape_Rgrid | apply shape_Theta]. Qed.

Lemma shape_sigma_yy : shape Script.sigma_yy 400 400.
Proof. apply shape_ew2; [apply shape_Rgrid | apply shape_Theta]. Qed.

Lemma shape_sigma_xy : shape Script.sigma_xy 400 400.
Proof. apply shape_ew2; [apply shape_Rgrid | apply shape_Theta]. Qed.

Lemma shape_arr_pow (X : list (list R)) (n rows cols : nat) :
  shape X rows cols -> shape (arr_pow X n) rows cols.
Proof. apply shape_ew1. Qed.

Lemma shape_arr_scale (c : R) (X : list (list R)) (rows cols : nat) :
  shape X rows cols -> shape (arr_scale c X) rows cols.
Proof. apply shape_ew1. Qed.

Lemma shape_arr_add (X Y : list (list R)) (rows cols : nat) :
  shape X rows cols -> shape Y rows cols -> shape (arr_add X Y) rows cols.
Proof. apply shape_ew2. Qed.

Lemma shape_arr_sub (X Y : list (list R)) (rows cols : nat) :
  shape X rows cols -> shape Y rows cols -> shape (arr_sub X Y) rows cols.
Proof. apply shape_ew2. Qed.

Lemma shape_arr_mul (X Y : list (list R)) (rows cols : nat) :
  shape X rows cols -> shape Y rows cols -> shape (arr_mul X Y) rows cols.
Proof. apply shape_ew2. Qed.

Lemma shape_arr_sqrt (X : list (list R)) (rows cols : nat) :
  shape X rows cols -> shape (arr_sqrt X) rows cols.
Proof. apply shape_ew1. Qed.

#[local] Hint Resolve shape_sigma_xx shape_sigma_yy shape_sigma_xy
  shape_arr_pow shape_arr_scale shape_arr_add shape_arr_sub shape_arr_mul
  shape_arr_sqrt : shapes.

Lemma shape_sigma_e : shape Script.sigma_e 400 400.
Proof. unfold Script.sigma_e. auto 10 with shapes. Qed.

(** Every stress field holds, at grid point (i, j), the scalar evaluator at
    radial sample j and angular sample i. *)
Lemma sigma_at (i j : nat) :
  (i < 400)%nat -> (j < 400)%nat ->
  get Script.sigma_xx i j 0
    = stress_xx (nth j Script.r 0) (nth i Script.theta 0)
                Params.P1 Params.P0 Params.a Params.G Params.G1
  /\ get Script.sigma_yy i j 0
    = stress_yy (nth j Script.r 0) (nth i Script.theta 0)
                Params.P2 Params.P0 Params.a Params.G Params.G1
  /\ get Script.sigma_xy i j 0
    = stress_xy (nth j Script.r 0) (nth i Script.theta 0)
                Params.P0 Params.a Params.G Params.G1.
Proof.
  intros Hi Hj. destruct (grid_point i j 0 Hi Hj) as [HR HT].
  unfold Script.sigma_xx, Script.sigma_yy, Script.sigma_xy.
  rewrite !(get_ew2 _ _ _ 400 400 i j 0 0 0 shape_Rgrid shape_Theta Hi Hj).
  rewrite HR, HT. repeat split; reflexivity.
Qed.

(** The array expression of line 66, read at one grid point. *)
Lemma sigma_e_at (i j : nat) :
  (i < 400)%nat -> (j < 400)%nat ->
  get Script.sigma_e i j 0
    = mises (get Script.sigma_xx i j 0) (get Script.sigma_yy i j 0)
            (get Script.sigma_xy i j 0).
Proof.
  intros Hi Hj. unfold Script.sigma_e, arr_sqrt.
  rewrite (get_ew1 sqrt _ 400 400 i j 0 0) by first [lia | auto 10 with shapes].
  unfold arr_add at 1.
  rewrite (get_ew2 Rplus _ _ 400 400 i j 0 0 0) by first [lia | auto 10 with shapes].
  unfold arr_sub at 1.
  rewrite (get_ew2 Rminus _ _ 400 400 i j 0 0 0) by first [lia | auto 10 with shapes].
  unfold arr_add at 1.
  rewrite (get_ew2 Rplus _ _ 400 400 i j 0 0 0) by first [lia | auto 10 with shapes].
  unfold arr_mul, arr_scale, arr_pow.
  rewrite (get_ew2 Rmult _ _ 400 400 i j 0 0 0) by first [lia | auto with shapes].
  rewrite (get_ew1 (fun x => 3 * x) _ 400 400 i j 0 0)
    by first [lia | apply shape_ew1; auto with shapes].
  rewrite !(get_ew1 (fun x => x ^ 2) _ 400 400 i j 0 0) by first [lia | auto with shapes].
  reflexivity.
Qed.

Lemma Rgtb_true (x y : R) : Rgtb x y = true <-> x > y.
Proof.
  unfold Rgtb, Rgt. destruct (Rlt_dec y x) as [H|H]; split; intros H';
    [exact H | reflexivity | discriminate | contradiction].
Qed.

(** C3: at every grid point (i, j) the equivalent stress is
    sqrt(sxx^2 + syy^2 - sxx syy + 3 sxy^2) of the three stresses there, and
    the mask holds exactly the comparison of it with the yield stress 250. *)
Theorem C3_mises_and_mask (i j : nat) :
  (i < 400)%nat -> (j < 400)%nat ->
  get Script.sigma_e i j 0
    = sqrt ((get Script.sigma_xx i j 0) ^ 2 + (get Script.sigma_yy i j 0) ^ 2
            - get Script.sigma_xx i j 0 * get Script.sigma_yy i j 0
            + 3 * (get Script.sigma_xy i j 0) ^ 2)
  /\ get Script.plastic_boundary i j false
       = Rgtb (get Script.sigma_e i j 0) Params.yield_stress
  /\ (get Script.plastic_boundary i j false = true
      <-> get Script.sigma_e i j 0 > 250).
Proof.
  intros Hi Hj.
  assert (Hmask : get Script.plastic_boundary i j false
                  = Rgtb (get Script.sigma_e i j 0) Params.yield_stress).
  { unfold Script.plastic_boundary, arr_gt.
    rewrite (get_ew1 (fun x => Rgtb x Params.yield_stress) _ 400 400
               i j false 0 shape_sigma_e Hi Hj).
    reflexivity. }
  split; [| split].
  - rewrite sigma_e_at by assumption. reflexivity.
  - exact Hmask.
  - rewrite Hmask. apply Rgtb_true.
Qed.

Lemma C3_mises_and_mask_witness :
  (0 < 400)%nat /\ (399 < 400)%nat /\
  (get Script.plastic_boundary 0 399 false = true
   <-> get Script.sigma_e 0 399 0 > 250).
Proof.
  assert (Hi : (0 < 400)%nat) by lia.
  assert (Hj : (399 < 400)%nat) by lia.
  split; [exact Hi | split; [exact Hj |]].
  exact (proj2 (proj2 (C3_mises_and_mask 0 399 Hi Hj))).
Defined.

(** The equivalent stress is non-negative at every grid point. *)
Lemma sigma_e_nonneg (i j : nat) :
  (i < 400)%nat -> (j < 400)%nat -> 0 <= get Script.sigma_e i j 0.
Proof.
  intros Hi Hj. rewrite sigma_e_at by assumption.
  unfold mises. apply sqrt_pos.
Qed.

(** ** The strain fields over the grid *)

(** At grid point (i, j) the field [e_xx] is [exx_of_loads] at the loads of
    the script, and [e_xy] is the shear evaluator composed with stress_xy. *)
Lemma strain_at (i j : nat) :
  (i < 400)%nat -> (j < 400)%nat ->
  get Script.e_xx i j 0
    = exx_of_loads (nth j Script.r 0) (nth i Script.theta 0)
                   Params.a Params.G Params.G1 Params.E Params.nu
                   Params.P1 Params.P2 Params.P0
  /\ get Script.e_xy i j 0
    = strain_xy (stress_xy (nth j Script.r 0) (nth i Script.theta 0)
                           Params.P0 Params.a Params.G Params.G1)
                Params.G.
Proof.
  intros Hi Hj. destruct (sigma_at i j Hi Hj) as (Hxx & Hyy & Hxy).
  unfold Script.e_xx, Script.e_xy, exx_of_loads.
  rewrite (get_ew2 _ _ _ 400 400 i j 0 0 0 shape_sigma_xx shape_sigma_yy Hi Hj).
  rewrite (get_ew1 (fun s => strain_xy s Params.G) _ 400 400 i j 0 0
             shape_sigma_xy Hi Hj).
  rewrite Hxx, Hyy, Hxy. split; reflexivity.
Qed.

(** No radial sample of the script is zero, so no grid point divides by
    zero in the stress evaluators. *)
Lemma r_nonzero (j : nat) : (j < 400)%nat -> nth j Script.r 0 <> 0.
Proof.
  intros Hj. destruct (r_range j 0 Hj) as [Hlo _].
  unfold Params.b in Hlo. lra.
Qed.

(** * Further properties of the evaluators *)

(** ** Periodicity and decay of the stresses *)

Lemma cos_double_shift (t : R) : cos (2 * (t + PI)) = cos (2 * t).
Proof.
  replace (2 * (t + PI)) with (2 * t + PI + PI) by ring.
  rewrite !neg_cos. ring.
Qed.

Lemma stress_xx_shift_PI (r theta P1 P0 a G G1 : R) :
  stress_xx r (theta + PI) P1 P0 a G G1 = stress_xx r theta P1 P0 a G G1.
Proof. unfold stress_xx. rewrite cos_double_shift. reflexivity. Qed.

Lemma stress_yy_shift_PI (r theta P2 P0 a G G1 : R) :
  stress_yy r (theta + PI) P2 P0 a G G1 = stress_yy r theta P2 P0 a G G1.
Proof. unfold stress_yy. rewrite cos_double_shift. reflexivity. Qed.

(** X1: the three stresses have period pi in theta. *)
Theorem stress_pi_periodic (r theta P1 P2 P0 a G G1 : R) :
  stress_xx r (theta + PI) P1 P0 a G G1 = stress_xx r theta P1 P0 a G G1
  /\ stress_yy r (theta + PI) P2 P0 a G G1 = stress_yy r theta P2 P0 a G G1
  /\ stress_xy r (theta + PI) P0 a G G1 = stress_xy r theta P0 a G G1.
Proof.
  repeat split;
    [apply stress_xx_shift_PI | apply stress_yy_shift_PI
     | apply stress_xy_shift_PI].
Qed.

Lemma modulation_nonneg (a r : R) : r <> 0 -> 0 <= a ^ 2 / r ^ 2.
Proof.
  intros Hr. apply Rmult_le_pos; [apply pow2_ge_0 |].
  left. apply Rinv_0_lt_compat.
  assert (H : 0 < r * r) by (apply Rsqr_pos_lt in Hr; exact Hr).
  simpl. rewrite Rmult_1_r. exact H.
Qed.

Lemma Rabs_le_1_scale (m c x : R) :
  0 <= m -> Rabs c <= 1 -> Rabs (m * c * x) <= m * Rabs x.
Proof.
  intros Hm Hc. rewrite !Rabs_mult, (Rabs_pos_eq m Hm).
  pose proof (Rabs_pos x) as Hx. pose proof (Rabs_pos c) as Hc0.
  rewrite Rmult_assoc. apply Rmult_le_compat_l; [exact Hm |].
  rewrite <- (Rmult_1_l (Rabs x)) at 2.
  apply Rmult_le_compat_r; assumption.
Qed.

Lemma Rabs_cos_le_1 (t : R) : Rabs (cos t) <= 1.
Proof. apply Rabs_le. pose proof (COS_bound t) as [H1 H2]. lra. Qed.

Lemma Rabs_sin_le_1 (t : R) : Rabs (sin t) <= 1.
Proof. apply Rabs_le. pose proof (SIN_bound t) as [H1 H2]. lra. Qed.

(** X2: away from the inclusion the stresses approach the applied loads:
    stress_xx, stress_yy and stress_xy differ from P1, P2 and 0 by at most
    (a^2/r^2) times |P| + |P0 G/G1| (|P0 G/G1| for the shear). *)
Theorem stress_perturbation_bound (r theta P1 P2 P0 a G G1 : R) :
  r <> 0 ->
  Rabs (stress_xx r theta P1 P0 a G G1 - P1)
    <= a ^ 2 / r ^ 2 * (Rabs P1 + Rabs (P0 * (G / G1)))
  /\ Rabs (stress_yy r theta P2 P0 a G G1 - P2)
    <= a ^ 2 / r ^ 2 * (Rabs P2 + Rabs (P0 * (G / G1)))
  /\ Rabs (stress_xy r theta P0 a G G1)
    <= a ^ 2 / r ^ 2 * Rabs (P0 * (G / G1)).
Proof.
  intros Hr. pose proof (modulation_nonneg a r Hr) as Hm.
  unfold stress_xx, stress_yy, stress_xy.
  set (m := a ^ 2 / r ^ 2) in *. set (k := G / G1).
  pose proof (Rabs_cos_le_1 (2 * theta)) as Hc.
  pose proof (Rabs_sin_le_1 (2 * theta)) as Hs.
  repeat split.
  - replace (P1 * (1 + m * cos (2 * theta)) + P0 * m * cos (2 * theta) * k - P1)
      with (m * cos (2 * theta) * (P1 + P0 * k)) by ring.
    eapply Rle_trans; [apply Rabs_le_1_scale; assumption |].
    apply Rmult_le_compat_l; [exact Hm | apply Rabs_triang].
  - replace (P2 * (1 - m * cos (2 * theta)) + P0 * m * cos (2 * theta) * k - P2)
      with (m * cos (2 * theta) * (- P2 + P0 * k)) by ring.
    eapply Rle_trans; [apply Rabs_le_1_scale; assumption |].
    apply Rmult_le_compat_l; [exact Hm |].
    rewrite <- (Rabs_Ropp P2). apply Rabs_triang.
  - replace (- P0 * m * sin (2 * theta) * k)
      with (m * sin (2 * theta) * (- (P0 * k))) by ring.
    eapply Rle_trans; [apply Rabs_le_1_scale; assumption |].
    rewrite Rabs_Ropp. apply Rle_refl.
Qed.

Lemma stress_perturbation_bound_witness :
  2 <> 0 /\
  Rabs (stress_xy 2 1 50 1 810 1216) <= 1 ^ 2 / 2 ^ 2 * Rabs (50 * (810 / 1216)).
Proof.
  assert (H : (2:R) <> 0) by lra.
  split; [exact H |].
  exact (proj2 (proj2 (stress_perturbation_bound 2 1 150 150 50 1 810 1216 H))).
Defined.

(** X3: the difference of the two normal stresses is
    (P1 - P2) + (P1 + P2) (a^2/r^2) cos(2 theta): the inclusion pressure P0
    and the moduli G, G1 cancel, so any two choices of them give the same
    difference. *)
Theorem stress_difference_free_of_P0 (r theta P1 P2 a : R) :
  forall P0 G G1 P0' G' G1' : R,
    stress_xx r theta P1 P0 a G G1 - stress_yy r theta P2 P0 a G G1
      = (P1 - P2) + (P1 + P2) * (a ^ 2 / r ^ 2) * cos (2 * theta)
    /\ stress_xx r theta P1 P0 a G G1 - stress_yy r theta P2 P0 a G G1
      = stress_xx r theta P1 P0' a G' G1' - stress_yy r theta P2 P0' a G' G1'.
Proof.
  intros. unfold stress_xx, stress_yy. split; ring.
Qed.

(** ** Hooke's law inverted *)

(** X4: for E <> 0, G <> 0 and nu^2 <> 1 the stresses are recovered from
    the strains: sxx = E/(1 - nu^2) (exx + nu eyy),
    syy = E/(1 - nu^2) (eyy + nu exx) and sxy = G exy. *)
Theorem hooke_inverse (sxx syy sxy E nu G : R) :
  E <> 0 -> G <> 0 -> nu ^ 2 <> 1 ->
  E / (1 - nu ^ 2)
    * (strain_xx sxx syy E nu + nu * strain_yy sxx syy E nu) = sxx
  /\ E / (1 - nu ^ 2)
    * (strain_yy sxx syy E nu + nu * strain_xx sxx syy E nu) = syy
  /\ G * strain_xy sxy G = sxy.
Proof.
  intros HE HG Hnu.
  assert (Hden : 1 - nu ^ 2 <> 0) by lra.
  unfold strain_xx, strain_yy, strain_xy.
  repeat split; field; auto.
Qed.

Lemma hooke_inverse_witness :
  200000 <> 0 /\ 810 <> 0 /\ (3 / 10) ^ 2 <> 1 /\
  810 * strain_xy 40 810 = 40.
Proof.
  assert (HE : (200000:R) <> 0) by lra.
  assert (HG : (810:R) <> 0) by lra.
  assert (Hnu : (3 / 10) ^ 2 <> 1) by lra.
  repeat (split; [assumption |]).
  exact (proj2 (proj2 (hooke_inverse 300 150 40 200000 (3 / 10) 810 HE HG Hnu))).
Defined.

(** ** The equivalent stress as a function of the stresses *)

Lemma mises_radicand_scale (k x y z : R) :
  mises_radicand (k * x) (k * y) (k * z) = Rsqr k * mises_radicand x y z.
Proof. unfold mises_radicand, Rsqr. ring. Qed.

Lemma mises_scale (k x y z : R) :
  mises (k * x) (k * y) (k * z) = Rabs k * mises x y z.
Proof.
  unfold mises. rewrite mises_radicand_scale.
  rewrite sqrt_mult_alt by apply Rle_0_sqr.
  rewrite sqrt_Rsqr_abs. reflexivity.
Qed.

(** X5: the equivalent stress is positively homogeneous: scaling the three
    stresses by k scales it by |k|; in particular reversing all signs leaves
    it unchanged. *)
Theorem mises_homogeneous (k sxx syy sxy : R) :
  mises (k * sxx) (k * syy) (k * sxy) = Rabs k * mises sxx syy sxy
  /\ mises (- sxx) (- syy) (- sxy) = mises sxx syy sxy.
Proof.
  split; [apply mises_scale |].
  replace (- sxx) with (-1 * sxx) by ring.
  replace (- syy) with (-1 * syy) by ring.
  replace (- sxy) with (-1 * sxy) by ring.
  rewrite mises_scale.
  replace (Rabs (-1)) with 1 by (unfold Rabs; destruct (Rcase_abs _); lra).
  ring.
Qed.

Lemma mises_radicand_zero (x y z : R) :
  mises_radicand x y z = 0 -> x = 0 /\ y = 0 /\ z = 0.
Proof.
  rewrite mises_radicand_squares. intros H.
  pose proof (pow2_ge_0 (x - y / 2)) as H1.
  pose proof (pow2_ge_0 y) as H2.
  pose proof (pow2_ge_0 z) as H3.
  assert (Hy : y ^ 2 = 0) by lra.
  assert (Hz : z ^ 2 = 0) by lra.
  assert (Hx : (x - y / 2) ^ 2 = 0) by lra.
  rewrite <- Rsqr_pow2 in Hy, Hz, Hx.
  apply Rsqr_eq_0 in Hy, Hz, Hx. repeat split; lra.
Qed.

(** X6: the equivalent stress vanishes exactly when the three stresses
    do. *)
Theorem mises_zero_iff (sxx syy sxy : R) :
  mises sxx syy sxy = 0 <-> sxx = 0 /\ syy = 0 /\ sxy = 0.
Proof.
  split.
  - intros H. apply mises_radicand_zero.
    apply sqrt_eq_0; [apply mises_radicand_nonneg | exact H].
  - intros (-> & -> & ->). unfold mises, mises_radicand.
    replace (0 ^ 2 + 0 ^ 2 - 0 * 0 + 3 * 0 ^ 2) with 0 by ring.
    apply sqrt_0.
Qed.

Lemma sqrt_pow2_abs (x : R) : sqrt (x ^ 2) = Rabs x.
Proof. rewrite <- Rsqr_pow2. apply sqrt_Rsqr_abs. Qed.

(** X7: in the simple stress states the equivalent stress is the expected
    one: |s| for a single normal stress s, |s| again for two equal normal
    stresses, and sqrt(3) |t| for a pure shear stress t. *)
Theorem mises_simple_states (s t : R) :
  mises s 0 0 = Rabs s
  /\ mises 0 s 0 = Rabs s
  /\ mises s s 0 = Rabs s
  /\ mises 0 0 t = sqrt 3 * Rabs t.
Proof.
  unfold mises, mises_radicand. repeat split.
  - replace (s ^ 2 + 0 ^ 2 - s * 0 + 3 * 0 ^ 2) with (s ^ 2) by ring.
    apply sqrt_pow2_abs.
  - replace (0 ^ 2 + s ^ 2 - 0 * s + 3 * 0 ^ 2) with (s ^ 2) by ring.
    apply sqrt_pow2_abs.
  - replace (s ^ 2 + s ^ 2 - s * s + 3 * 0 ^ 2) with (s ^ 2) by ring.
    apply sqrt_pow2_abs.
  - replace (0 ^ 2 + 0 ^ 2 - 0 * 0 + 3 * t ^ 2) with (3 * t ^ 2) by ring.
    rewrite sqrt_mult_alt by lra. rewrite sqrt_pow2_abs. reflexivity.
Qed.

(** The equivalent stress does not see the sign of the shear stress. *)
Lemma mises_shear_sign (x y z : R) : mises x y (- z) = mises x y z.
Proof. unfold mises, mises_radicand. f_equal. ring. Qed.

(** ** The equivalent stress as a function of position and loads *)

(** X8: the equivalent stress at a point is even in theta and has period
    pi in theta. *)
Theorem mises_at_theta_symmetry (r theta P1 P2 P0 a G G1 : R) :
  mises_at r (- theta) P1 P2 P0 a G G1 = mises_at r theta P1 P2 P0 a G G1
  /\ mises_at r (theta + PI) P1 P2 P0 a G G1
     = mises_at r theta P1 P2 P0 a G G1.
Proof.
  unfold mises_at. split.
  - replace (stress_xx r (- theta) P1 P0 a G G1)
      with (stress_xx r theta P1 P0 a G G1)
      by (unfold stress_xx; rewrite cos_double_neg; reflexivity).
    replace (stress_yy r (- theta) P2 P0 a G G1)
      with (stress_yy r theta P2 P0 a G G1)
      by (unfold stress_yy; rewrite cos_double_neg; reflexivity).
    replace (stress_xy r (- theta) P0 a G G1)
      with (- stress_xy r theta P0 a G G1)
      by (unfold stress_xy; rewrite sin_double_neg; ring).
    apply mises_shear_sign.
  - rewrite stress_xx_shift_PI, stress_yy_shift_PI, stress_xy_shift_PI.
    reflexivity.
Qed.

(** X9: scaling the three loads P1, P2, P0 by k scales the equivalent
    stress at every point by |k|. *)
Theorem mises_at_load_scaling (k r theta P1 P2 P0 a G G1 : R) :
  mises_at r theta (k * P1) (k * P2) (k * P0) a G G1
    = Rabs k * mises_at r theta P1 P2 P0 a G G1.
Proof.
  unfold mises_at. rewrite <- mises_scale. f_equal.
  - unfold stress_xx. ring.
  - unfold stress_yy. ring.
  - unfold stress_xy. ring.
Qed.

(** ** Sampling with linspace *)

Lemma linspace_step (start stop : R) (num i : nat) (d : R) :
  (1 < num)%nat -> (S i < num)%nat ->
  nth (S i) (linspace start stop num) d - nth i (linspace start stop num) d
    = (stop - start) / INR (num - 1).
Proof.
  intros Hnum Hi.
  rewrite !nth_linspace_fraction by lia.
  assert (Hden : INR (num - 1) <> 0) by (apply not_0_INR; lia).
  rewrite S_INR. field. exact Hden.
Qed.

(** X10: with at least two samples, linspace returns num samples that
    start at start, end exactly at stop, and are evenly spaced by
    (stop - start)/(num - 1). *)
Theorem linspace_even_inclusive (start stop : R) (num : nat) (d : R) :
  (1 < num)%nat ->
  length (linspace start stop num) = num
  /\ nth 0 (linspace start stop num) d = start
  /\ nth (num - 1) (linspace start stop num) d = stop
  /\ (forall i : nat,
         (S i < num)%nat ->
         nth (S i) (linspace start stop num) d
           - nth i (linspace start stop num) d
         = (stop - start) / INR (num - 1)).
Proof.
  intros Hnum. repeat split.
  - apply length_linspace.
  - apply linspace_first. exact Hnum.
  - apply linspace_last. exact Hnum.
  - intros i Hi. apply linspace_step; assumption.
Qed.

Lemma linspace_even_inclusive_witness :
  (1 < 3)%nat /\ nth (3 - 1) (linspace 1 2 3) 0 = 2.
Proof.
  assert (H : (1 < 3)%nat) by lia.
  split; [exact H |].
  exact (proj1 (proj2 (proj2 (linspace_even_inclusive 1 2 3 0 H)))).
Defined.

(** X11: the degenerate sample counts: no sample for num = 0, and for
    num = 1 the single sample start, whatever stop is. *)
Theorem linspace_degenerate (start stop : R) :
  linspace start stop 0 = [] /\ linspace start stop 1 = [start].
Proof.
  unfold linspace. simpl. split; [reflexivity |].
  f_equal. ring.
Qed.

(** X12: swapping the end points gives the same samples in the reverse
    order: sample i of linspace stop start is sample num - 1 - i of
    linspace start stop. *)
Theorem linspace_swap_ends (start stop : R) (num i : nat) (d : R) :
  (1 < num)%nat -> (i < num)%nat ->
  nth i (linspace stop start num) d
    = nth (num - 1 - i) (linspace start stop num) d.
Proof.
  intros Hnum Hi.
  rewrite !nth_linspace_fraction by lia.
  assert (Hden : INR (num - 1) <> 0) by (apply not_0_INR; lia).
  rewrite (minus_INR (num - 1) i) by lia. field. exact Hden.
Qed.

Lemma linspace_swap_ends_witness :
  (1 < 3)%nat /\ (0 < 3)%nat /\
  nth 0 (linspace 2 1 3) 0 = nth (3 - 1 - 0) (linspace 1 2 3) 0.
Proof.
  assert (Hn : (1 < 3)%nat) by lia.
  assert (Hi : (0 < 3)%nat) by lia.
  split; [exact Hn | split; [exact Hi |]].
  exact (linspace_swap_ends 1 2 3 0 0 Hn Hi).
Defined.

(** X13: in the script the angular samples strictly increase and the
    radial samples strictly decrease, each by a constant step. *)
Theorem samples_monotone (i : nat) :
  (S i < 400)%nat ->
  nth i Script.theta 0 < nth (S i) Script.theta 0
  /\ nth (S i) Script.r 0 < nth i Script.r 0
  /\ nth (S i) Script.theta 0 - nth i Script.theta 0 = 2 * PI / 399
  /\ nth (S i) Script.r 0 - nth i Script.r 0 = - (5 / 1000) / 399.
Proof.
  intros Hi.
  assert (H399 : INR (400 - 1) = 399).
  { change (400 - 1)%nat with 399%nat. rewrite INR_IZR_INZ. reflexivity. }
  pose proof (linspace_step 0 (2 * PI) 400 i 0) as Ht.
  pose proof (linspace_step Params.a Params.b 400 i 0) as Hr.
  fold Script.theta in Ht. fold Script.r in Hr.
  rewrite H399 in Ht, Hr.
  specialize (Ht ltac:(lia) Hi). specialize (Hr ltac:(lia) Hi).
  unfold Params.a, Params.b in Hr.
  pose proof PI_RGT_0 as Hpi.
  assert (Hts : nth (S i) Script.theta 0 - nth i Script.theta 0 = 2 * PI / 399)
    by (rewrite Ht; field).
  assert (Hrs : nth (S i) Script.r 0 - nth i Script.r 0 = - (5 / 1000) / 399)
    by (rewrite Hr; field).
  repeat split; try assumption; lra.
Qed.

Lemma samples_monotone_witness :
  (1 < 400)%nat /\ nth 1 Script.r 0 < nth 0 Script.r 0.
Proof.
  assert (H : (1 < 400)%nat) by lia.
  split; [exact H |].
  exact (proj1 (proj2 (samples_monotone 0 H))).
Defined.

(** * Further properties of the script's arrays *)

(** X14: grid point (i, j) pairs radial sample j with angular sample i, so
    R does not change along a column nor Theta along a row; theta lies in
    [0, 2 pi] and, the end points of the radial range being given as
    a = 0.02 and b = 0.015, r lies in [0.015, 0.02]. *)
Theorem grid_pairs_and_ranges (i j : nat) :
  (i < 400)%nat -> (j < 400)%nat ->
  get Script.Rgrid i j 0 = nth j Script.r 0
  /\ get Script.Theta i j 0 = nth i Script.theta 0
  /\ (forall i' : nat,
         (i' < 400)%nat -> get Script.Rgrid i' j 0 = get Script.Rgrid i j 0)
  /\ (forall j' : nat,
         (j' < 400)%nat -> get Script.Theta i j' 0 = get Script.Theta i j 0)
  /\ 0 <= get Script.Theta i j 0 <= 2 * PI
  /\ 15 / 1000 <= get Script.Rgrid i j 0 <= 2 / 100.
Proof.
  intros Hi Hj. destruct (grid_point i j 0 Hi Hj) as [HR HT].
  rewrite HR, HT.
  split; [reflexivity | split; [reflexivity |]].
  split; [intros i' Hi'; apply (grid_point i' j 0 Hi' Hj) |].
  split; [intros j' Hj'; apply (grid_point i j' 0 Hi Hj') |].
  split; [apply theta_range; exact Hi |].
  apply (r_range j 0 Hj).
Qed.

Lemma grid_pairs_and_ranges_witness :
  (0 < 400)%nat /\ (399 < 400)%nat /\
  15 / 1000 <= get Script.Rgrid 0 399 0 <= 2 / 100.
Proof.
  assert (Hi : (0 < 400)%nat) by lia.
  assert (Hj : (399 < 400)%nat) by lia.
  split; [exact Hi | split; [exact Hj |]].
  exact (proj2 (proj2 (proj2 (proj2 (proj2 (grid_pairs_and_ranges 0 399 Hi Hj)))))).
Defined.

(** ** Cartesian coordinates *)

Lemma cartesian_at (i j : nat) :
  (i < 400)%nat -> (j < 400)%nat ->
  get Script.X i j 0 = nth j Script.r 0 * cos (nth i Script.theta 0)
  /\ get Script.Y i j 0 = nth j Script.r 0 * sin (nth i Script.theta 0).
Proof.
  intros Hi Hj. destruct (grid_point i j 0 Hi Hj) as [HR HT].
  unfold Script.X, Script.Y.
  rewrite !(get_ew2 _ _ _ 400 400 i j 0 0 0 shape_Rgrid shape_Theta Hi Hj).
  rewrite HR, HT. split; reflexivity.
Qed.

(** X15: at every grid point the Cartesian coordinates lie on the circle
    of the radial coordinate: X^2 + Y^2 = R^2. *)
Theorem cartesian_on_circle (i j : nat) :
  (i < 400)%nat -> (j < 400)%nat ->
  (get Script.X i j 0) ^ 2 + (get Script.Y i j 0) ^ 2
    = (get Script.Rgrid i j 0) ^ 2.
Proof.
  intros Hi Hj.
  destruct (cartesian_at i j Hi Hj) as [-> ->].
  destruct (grid_point i j 0 Hi Hj) as [-> _].
  pose proof (sin2_cos2 (nth i Script.theta 0)) as Hsc.
  unfold Rsqr in Hsc.
  set (rj := nth j Script.r 0). set (t := nth i Script.theta 0) in *.
  replace ((rj * cos t) ^ 2 + (rj * sin t) ^ 2)
    with (rj ^ 2 * (sin t * sin t + cos t * cos t)) by ring.
  rewrite Hsc. ring.
Qed.

Lemma cartesian_on_circle_witness :
  (7 < 400)%nat /\ (11 < 400)%nat /\
  (get Script.X 7 11 0) ^ 2 + (get Script.Y 7 11 0) ^ 2
    = (get Script.Rgrid 7 11 0) ^ 2.
Proof.
  assert (Hi : (7 < 400)%nat) by lia.
  assert (Hj : (11 < 400)%nat) by lia.
  split; [exact Hi | split; [exact Hj |]].
  exact (cartesian_on_circle 7 11 Hi Hj).
Defined.

(** ** Shapes *)

Lemma shape_arr_gt (X : list (list R)) (c : R) (rows cols : nat) :
  shape X rows cols -> shape (arr_gt X c) rows cols.
Proof. apply shape_ew1. Qed.

(** X16: every array the script hands to the plots has the shape of the
    grid, 400 x 400: the coordinates, the three stresses, the three
    strains, the equivalent stress and the mask. *)
Theorem arrays_share_grid_shape :
  shape Script.X 400 400 /\ shape Script.Y 400 400
  /\ shape Script.sigma_xx 400 400 /\ shape Script.sigma_yy 400 400
  /\ shape Script.sigma_xy 400 400
  /\ shape Script.e_xx 400 400 /\ shape Script.e_yy 400 400
  /\ shape Script.e_xy 400 400
  /\ shape Script.sigma_e 400 400
  /\ shape Script.plastic_boundary 400 400.
Proof.
  pose proof shape_Rgrid as HR. pose proof shape_Theta as HT.
  pose proof shape_sigma_xx as Hxx. pose proof shape_sigma_yy as Hyy.
  pose proof shape_sigma_xy as Hxy. pose proof shape_sigma_e as He.
  exact (conj (shape_ew2 _ _ _ _ _ HR HT)
        (conj (shape_ew2 _ _ _ _ _ HR HT)
        (conj Hxx (conj Hyy (conj Hxy
        (conj (shape_ew2 _ _ _ _ _ Hxx Hyy)
        (conj (shape_ew2 _ _ _ _ _ Hxx Hyy)
        (conj (shape_ew1 _ _ _ _ Hxy)
        (conj He (shape_arr_gt _ _ _ _ He)))))))))).
Qed.

(** ** The strain fields *)

(** X17: at every grid point the three strain fields are Hooke's law of
    the stress fields at that point. *)
Theorem strain_fields_pointwise (i j : nat) :
  (i < 400)%nat -> (j < 400)%nat ->
  get Script.e_xx i j 0
    = (get Script.sigma_xx i j 0 - Params.nu * get Script.sigma_yy i j 0)
      / Params.E
  /\ get Script.e_yy i j 0
    = (get Script.sigma_yy i j 0 - Params.nu * get Script.sigma_xx i j 0)
      / Params.E
  /\ get Script.e_xy i j 0 = get Script.sigma_xy i j 0 / Params.G.
Proof.
  intros Hi Hj. unfold Script.e_xx, Script.e_yy, Script.e_xy.
  rewrite !(get_ew2 _ _ _ 400 400 i j 0 0 0 shape_sigma_xx shape_sigma_yy Hi Hj).
  rewrite (get_ew1 (fun s => strain_xy s Params.G) _ 400 400 i j 0 0
             shape_sigma_xy Hi Hj).
  unfold strain_xx, strain_yy, strain_xy, Params.E, Params.G.
  repeat split; field.
Qed.

Lemma strain_fields_pointwise_witness :
  (0 < 400)%nat /\ (399 < 400)%nat /\
  get Script.e_xy 0 399 0 = get Script.sigma_xy 0 399 0 / Params.G.
Proof.
  assert (Hi : (0 < 400)%nat) by lia.
  assert (Hj : (399 < 400)%nat) by lia.
  split; [exact Hi | split; [exact Hj |]].
  exact (proj2 (proj2 (strain_fields_pointwise 0 399 Hi Hj))).
Defined.

(** ** Denominators *)

(** X18: no grid point divides by zero: the radial coordinate is at least
    b = 0.015 everywhere, so r^2 is positive, and the moduli G1, E and G the
    script divides by are not zero. *)
Theorem no_zero_denominator (i j : nat) :
  (i < 400)%nat -> (j < 400)%nat ->
  0 < (get Script.Rgrid i j 0) ^ 2
  /\ Params.G1 <> 0 /\ Params.E <> 0 /\ Params.G <> 0.
Proof.
  intros Hi Hj. destruct (grid_point i j 0 Hi Hj) as [-> _].
  destruct (r_range j 0 Hj) as [Hlo _].
  unfold Params.b in Hlo. unfold Params.G1, Params.E, Params.G.
  repeat split; try lra.
  apply pow_lt. lra.
Qed.

Lemma no_zero_denominator_witness :
  (0 < 400)%nat /\ (399 < 400)%nat /\ 0 < (get Script.Rgrid 0 399 0) ^ 2.
Proof.
  assert (Hi : (0 < 400)%nat) by lia.
  assert (Hj : (399 < 400)%nat) by lia.
  split; [exact Hi | split; [exact Hj |]].
  exact (proj1 (no_zero_denominator 0 399 Hi Hj)).
Defined.

(** ** The equivalent stress and the mask over the grid *)

Lemma sigma_e_mises_at (i j : nat) :
  (i < 400)%nat -> (j < 400)%nat ->
  get Script.sigma_e i j 0
    = mises_at (nth j Script.r 0) (nth i Script.theta 0)
               Params.P1 Params.P2 Params.P0 Params.a Params.G Params.G1.
Proof.
  intros Hi Hj. rewrite sigma_e_at by assumption.
  destruct (sigma_at i j Hi Hj) as (-> & -> & ->). reflexivity.
Qed.

Lemma mask_at (i j : nat) :
  (i < 400)%nat -> (j < 400)%nat ->
  get Script.plastic_boundary i j false
    = Rgtb (get Script.sigma_e i j 0) Params.yield_stress.
Proof.
  intros Hi Hj. unfold Script.plastic_boundary, arr_gt.
  rewrite (get_ew1 (fun x => Rgtb x Params.yield_stress) _ 400 400
             i j false 0 shape_sigma_e Hi Hj).
  reflexivity.
Qed.

Lemma theta_first : nth 0 Script.theta 0 = 0.
Proof. apply linspace_first. lia. Qed.





(** On the ray theta = 0 the shear stress vanishes and the normal stresses
    are affine in the factor m = a^2/r^2. *)
Lemma radicand_on_ray (m : R) :
  1 <= m ->
  250 ^ 2
  < mises_radicand (150 * (1 + m * 1) + 50 * m * 1 * (810 / 1216))
                   (150 * (1 - m * 1) + 50 * m * 1 * (810 / 1216))
                   (- 50 * m * 0 * (810 / 1216)).
Proof.
  intros Hm. unfold mises_radicand.
  set (k := 810 / 1216).
  assert (Hk : 0 < k) by (unfold k; lra).
  assert (Hm2 : 1 <= m * m) by nra.
  assert (Hkm : 0 < k * m) by nra.
  assert (Hkm2 : 0 < k * (m * m)) by nra.
  assert (Hk2m2 : 0 <= k * k * (m * m)) by nra.
  replace ((150 * (1 + m * 1) + 50 * m * 1 * k) ^ 2
           + (150 * (1 - m * 1) + 50 * m * 1 * k) ^ 2
           - (150 * (1 + m * 1) + 50 * m * 1 * k)
             * (150 * (1 - m * 1) + 50 * m * 1 * k)
           + 3 * (- 50 * m * 0 * k) ^ 2)
    with (22500 + 15000 * (k * m) + 67500 * (m * m)
          + 2500 * (k * k * (m * m))) by ring.
  lra.
Qed.

Lemma modulation_ge_1 (a r : R) : 0 < r -> r <= a -> 1 <= a ^ 2 / r ^ 2.
Proof.
  intros Hr Hra.
  assert (Hr2 : 0 < r ^ 2) by (apply pow_lt; exact Hr).
  assert (Hle : r ^ 2 <= a ^ 2) by (apply pow_incr; lra).
  apply (Rmult_le_reg_r (r ^ 2)); [exact Hr2 |].
  unfold Rdiv. rewrite Rmult_assoc, Rinv_l by lra. lra.
Qed.

(** X20: along the whole first angular row (theta = 0), and so along the
    last, the equivalent stress exceeds the yield stress: the mask is true
    at each of these grid points. *)
Theorem ray_theta0_is_plastic (j : nat) :
  (j < 400)%nat ->
  get Script.sigma_e 0 j 0 > Params.yield_stress
  /\ get Script.plastic_boundary 0 j false = true.
Proof.
  intros Hj.
  assert (H0 : (0 < 400)%nat) by lia.
  assert (Hgt : get Script.sigma_e 0 j 0 > Params.yield_stress).
  { rewrite sigma_e_mises_at by assumption.
    rewrite theta_first.
    destruct (r_range j 0 Hj) as [Hlo Hhi].
    assert (Hpos : 0 < nth j Script.r 0) by (unfold Params.b in Hlo; lra).
    pose proof (modulation_ge_1 Params.a _ Hpos Hhi) as Hm.
    unfold mises_at, mises, stress_xx, stress_yy, stress_xy.
    rewrite Rmult_0_r, cos_0, sin_0.
    unfold Params.P1, Params.P2, Params.P0, Params.G, Params.G1,
      Params.yield_stress.
    set (m := Params.a ^ 2 / nth j Script.r 0 ^ 2) in *.
    pose proof (radicand_on_ray m Hm) as Hrad.
    unfold Rgt. rewrite <- (sqrt_pow2 250) at 1 by lra.
    apply sqrt_lt_1_alt. split; [apply pow2_ge_0 | exact Hrad]. }
  split; [exact Hgt |].
  rewrite mask_at by assumption. apply Rgtb_true. exact Hgt.
Qed.

Lemma ray_theta0_is_plastic_witness :
  (0 < 400)%nat /\ get Script.plastic_boundary 0 0 false = true.
Proof.
  assert (Hj : (0 < 400)%nat) by lia.
  split; [exact Hj |].
  exact (proj2 (ray_theta0_is_plastic 0 Hj)).
Defined.

(** ** The maximum of an array and the contour levels *)

Lemma fold_left_Rmax_ge_init (l : list R) (x : R) : x <= fold_left Rmax l x.
Proof.
  revert x. induction l as [|y l IH]; intros x; simpl.
  - apply Rle_refl.
  - eapply Rle_trans; [apply (Rmax_l x y) | apply IH].
Qed.

Lemma fold_left_Rmax_ge_elem (l : list R) (x y : R) :
  In y l -> y <= fold_left Rmax l x.
Proof.
  revert x. induction l as [|z l IH]; intros x Hin; simpl in *.
  - contradiction.
  - destruct Hin as [-> | Hin].
    + eapply Rle_trans; [apply (Rmax_r x y) | apply fold_left_Rmax_ge_init].
    + apply IH. exact Hin.
Qed.

Lemma fold_left_Rmax_attained (l : list R) (x : R) :
  fold_left Rmax l x = x \/ In (fold_left Rmax l x) l.
Proof.
  revert x. induction l as [|y l IH]; intros x; simpl.
  - left. reflexivity.
  - destruct (IH (Rmax x y)) as [Heq | Hin].
    + rewrite Heq. unfold Rmax. destruct (Rle_dec x y); auto.
    + right. right. exact Hin.
Qed.

(** X21: the maximum of an array is one of its entries and is at least
    every entry; there is no maximum exactly when the array has no entry. *)
Theorem arr_max_spec (X : list (list R)) :
  (arr_max X = None <-> concat X = [])
  /\ (forall m : R,
         arr_max X = Some m ->
         In m (concat X) /\ (forall x : R, In x (concat X) -> x <= m)).
Proof.
  unfold arr_max. destruct (concat X) as [|x l]; split.
  - split; reflexivity.
  - intros m H. discriminate H.
  - split; intros H; discriminate H.
  - intros m H. injection H as <-. split.
    + destruct (fold_left_Rmax_attained l x) as [-> | Hin];
        [left; reflexivity | right; exact Hin].
    + intros y [<- | Hin];
        [apply fold_left_Rmax_ge_init | apply fold_left_Rmax_ge_elem; exact Hin].
Qed.

Lemma arr_max_bounds (X : list (list R)) (m : R) :
  arr_max X = Some m -> forall x : R, In x (concat X) -> x <= m.
Proof.
  unfold arr_max. destruct (concat X) as [|x l]; intros H; [discriminate H |].
  injection H as <-. intros y [<- | Hin];
    [apply fold_left_Rmax_ge_init | apply fold_left_Rmax_ge_elem; exact Hin].
Qed.

Lemma arr_max_some (X : list (list R)) (x : R) :
  In x (concat X) -> exists m : R, arr_max X = Some m.
Proof.
  unfold arr_max. destruct (concat X) as [|y l]; intros Hin.
  - contradiction.
  - eexists. reflexivity.
Qed.

Lemma get_in_concat {A : Type} (m : list (list A)) (rows cols i j : nat) (d : A) :
  shape m rows cols -> (i < rows)%nat -> (j < cols)%nat ->
  In (get m i j d) (concat m).
Proof.
  intros Hm Hi Hj. apply in_concat. exists (nth i m []). split.
  - apply nth_In. destruct Hm as [Hlen _]. lia.
  - unfold get. apply nth_In. rewrite (shape_row m rows cols i Hm Hi). exact Hj.
Qed.

(** X22: the contour levels of line 80 exist and are ten values that rise
    from 0 to the largest equivalent stress m of the grid; m is not
    negative, every grid value lies in [0, m] and every level lies in
    [0, m]. *)
Theorem contour_levels_cover :
  exists m : R,
    arr_max Script.sigma_e = Some m
    /\ contour_levels = Some (linspace 0 m 10)
    /\ 0 <= m
    /\ (forall i j : nat,
           (i < 400)%nat -> (j < 400)%nat ->
           0 <= get Script.sigma_e i j 0 <= m)
    /\ length (linspace 0 m 10) = 10%nat
    /\ nth 0 (linspace 0 m 10) 0 = 0
    /\ nth 9 (linspace 0 m 10) 0 = m
    /\ (forall k : nat,
           (k < 10)%nat -> 0 <= nth k (linspace 0 m 10) 0 <= m).
Proof.
  assert (Hin : forall i j : nat,
             (i < 400)%nat -> (j < 400)%nat ->
             In (get Script.sigma_e i j 0) (concat Script.sigma_e)).
  { intros i j Hi Hj.
    apply (get_in_concat _ 400 400 i j 0 shape_sigma_e Hi Hj). }
  destruct (arr_max_some _ _ (Hin 0%nat 0%nat ltac:(lia) ltac:(lia)))
    as [m Hm].
  assert (Hbound : forall i j : nat,
             (i < 400)%nat -> (j < 400)%nat ->
             0 <= get Script.sigma_e i j 0 <= m).
  { intros i j Hi Hj. split.
    - apply sigma_e_nonneg; assumption.
    - apply (arr_max_bounds _ _ Hm). apply Hin; assumption. }
  assert (Hm0 : 0 <= m).
  { destruct (Hbound 0%nat 0%nat ltac:(lia) ltac:(lia)) as [H1 H2]. lra. }
  exists m. split; [exact Hm |].
  split; [unfold contour_levels; rewrite Hm; reflexivity |].
  split; [exact Hm0 |].
  split; [exact Hbound |].
  split; [apply length_linspace |].
  split; [apply linspace_first; lia |].
  split; [apply (linspace_last 0 m 10 0); lia |].
  intros k Hk. apply linspace_between; [exact Hm0 | lia | exact Hk].
Qed.
